(** * Address book service (main.py): model and verified properties

    The service keeps one table of addresses and serves five endpoints:
    create, update, delete, list and "within distance".  This file embeds
    the request models, the table and the five handlers of [main.py], and
    proves the properties of the specification about them.

    Modelling choices, each taken from the source:
    - a latitude or longitude is a Python [float]: a binary64 number, here
      Rocq's primitive [float], compared with [PrimFloat.leb] as [<=] is;
    - an attribute of a mapped [Address] object holds a value or [None]:
      [name], [latitude] and [longitude] are options, so that "never null"
      is a statement about the handlers and not about the record type;
    - the table is the list of its rows in the order a query returns them;
    - [db.commit()] makes the session's pending change the table's state,
      or raises and leaves the table as it was: a handler maps the table
      before the request to its answer and the table after it;
    - a handler returns a value or raises: its result is a sum, with the
      exceptions of the libraries it calls on the left;
    - the collaborators the source imports are modelled by what they do
      with the values the handlers give them: SQLite's storage of a
      float and of an integer key, geopy's check of a point.  The key
      the store gives to an inserted row and the distance geopy computes
      between two points it accepts are parameters. *)

From Stdlib Require Import ZArith Floats.
From stdpp Require Import base option list strings gmap sorting.

Local Open Scope Z_scope.

(** ** Data model *)

(** [class Address(Base)], main.py:27-32.  [id] is the integer primary
    key, present on every row of the table. *)
Module Address.
Record t : Type := mk {
  id : Z;
  name : option string;
  latitude : option float;
  longitude : option float
}.
End Address.

(** [class AddressCreate(BaseModel)], main.py:40-47: three required
    fields. *)
Module AddressCreate.
Record t : Type := mk {
  name : string;
  latitude : float;
  longitude : float
}.
End AddressCreate.

(** [class AddressUpdate(BaseModel)], main.py:50-53.  Each field has the
    default [None], so a field is either in [model_fields_set], with a
    validated value of the annotated type, or unset: [Some v] and [None]
    here. *)
Module AddressUpdate.
Record t : Type := mk {
  name : option string;
  latitude : option float;
  longitude : option float
}.
End AddressUpdate.

(** One item of the dict [address.model_dump(exclude_unset=True)]: the
    key, with the value its annotation gives it. *)
Inductive item : Type :=
  | item_name (value : string)
  | item_latitude (value : float)
  | item_longitude (value : float).

(** [raise HTTPException(status_code=.., detail=..)]. *)
Record HTTPException : Type := mkHTTPException {
  status_code : Z;
  detail : string
}.

(** What a handler raises instead of returning: the [HTTPException] of
    its own [raise], or an exception of a library it calls, which the
    handler does not catch. *)
Inductive raised : Type :=
  | raised_HTTPException (e : HTTPException)
  | IntegrityError
  | OverflowError
  | ValueError.

(** The table [addresses]. *)
Abbreviation Table := (list Address.t).

(** ** The store *)

(** The integers SQLite keeps: an [Integer] parameter outside this range
    is refused by the driver with [OverflowError]. *)
Definition int64 (i : Z) : bool := (- 2 ^ 63 <=? i) && (i <? 2 ^ 63).

(** The value SQLite keeps for a float bound to a [Float] column: a NaN
    is bound as NULL ([None]), a zero is kept without its sign, any
    other number, the infinities included, as it is. *)
Definition sqlite_real (f : float) : option float :=
  if is_nan f then None
  else Some (if PrimFloat.eqb f 0 then 0%float else f).

(** The first row with the id: the SELECT of a lookup by primary key. *)
Definition select_first (address_id : Z) (db : Table) : option Address.t :=
  find (λ a, Address.id a =? address_id) db.

(** [db.query(Address).filter(Address.id == address_id).first()]: the id
    is bound as a parameter of the query. *)
Definition query_first (address_id : Z) (db : Table)
  : raised + option Address.t :=
  if int64 address_id then inr (select_first address_id db)
  else inl OverflowError.

(** [address.model_dump(exclude_unset=True)]: the fields that were set,
    in declaration order. *)
Definition model_dump_exclude_unset (address : AddressUpdate.t) : list item :=
  from_option (λ v, [item_name v]) [] (AddressUpdate.name address) ++
  from_option (λ v, [item_latitude v]) [] (AddressUpdate.latitude address) ++
  from_option (λ v, [item_longitude v]) [] (AddressUpdate.longitude address).

(** [setattr(db_address, key, value)]. *)
Definition setattr (db_address : Address.t) (kv : item) : Address.t :=
  match kv with
  | item_name value =>
      Address.mk (Address.id db_address) (Some value)
        (Address.latitude db_address) (Address.longitude db_address)
  | item_latitude value =>
      Address.mk (Address.id db_address) (Address.name db_address)
        (Some value) (Address.longitude db_address)
  | item_longitude value =>
      Address.mk (Address.id db_address) (Address.name db_address)
        (Address.latitude db_address) (Some value)
  end.

(** The value the store keeps for an attribute the request set, bound as
    a parameter of the UPDATE: [None] when the column would be NULL,
    which [nullable=False] (main.py:31-32) refuses. *)
Definition bind (kv : item) : option item :=
  match kv with
  | item_name value => Some (item_name value)
  | item_latitude value => item_latitude <$> sqlite_real value
  | item_longitude value => item_longitude <$> sqlite_real value
  end.

(** The UPDATE that [db.commit()] emits for a modified object: the rows
    with its primary key take its attributes. *)
Definition flush_update (db_address : Address.t) (db : Table) : Table :=
  (λ a, if decide (Address.id a = Address.id db_address) then db_address else a)
    <$> db.

(** The DELETE that [db.commit()] emits after [db.delete(db_address)]. *)
Definition flush_delete (db_address : Address.t) (db : Table) : Table :=
  filter (λ a, Address.id a ≠ Address.id db_address) db.

(** ** geopy *)

(** [Point(latitude, longitude)]: geopy reads a missing coordinate as
    0.0 and raises [ValueError] unless both coordinates are finite and
    the latitude is in -90..90 ([if abs(latitude) > 90: raise]). *)
Definition Point (p : option float * option float) : option (float * float) :=
  let latitude := default 0%float p.1 in
  let longitude := default 0%float p.2 in
  if is_finite latitude && is_finite longitude
     && negb (PrimFloat.ltb 90 (abs latitude))
  then Some (latitude, longitude)
  else None.

(** ** Handlers *)

Section Service.

(** The key the store gives to a row inserted without one, from the
    keys in use.  A primary key is unique, so the key is a free one. *)
Variable new_rowid : list Z → Z.

(** The distance in kilometres that geopy computes between the
    reference point and the coordinates of a row, for two points it
    accepts. *)
Variable geodesic_km : float * float → option float * option float → float.

(** [geodesic((latitude, longitude), (address.latitude,
    address.longitude)).km]: both arguments are made points, then the
    distance is computed. *)
Definition geodesic (p : float * float) (q : option float * option float)
  : raised + float :=
  match Point (Some p.1, Some p.2), Point q with
  | Some _, Some _ => inr (geodesic_km p q)
  | _, _ => inl ValueError
  end.

(** [create_address], main.py:73-80.  The INSERT of [db.commit()] binds
    the three values; [db.refresh] reads the row back. *)
Definition create_address (address : AddressCreate.t) (db : Table)
  : (raised + Address.t) * Table :=
  match sqlite_real (AddressCreate.latitude address),
        sqlite_real (AddressCreate.longitude address) with
  | Some latitude, Some longitude =>
      let db_address :=
        Address.mk (new_rowid (Address.id <$> db))
          (Some (AddressCreate.name address)) (Some latitude) (Some longitude) in
      (inr db_address, db ++ [db_address])
  | _, _ => (inl IntegrityError, db)
  end.

(** [update_address], main.py:84-97.  [db.commit()] binds the attributes
    the loop has set; after [db.refresh] the object holds what the store
    kept for them. *)
Definition update_address (address_id : Z) (address : AddressUpdate.t)
    (db : Table) : (raised + Address.t) * Table :=
  match query_first address_id db with
  | inl e => (inl e, db)
  | inr None =>
      (inl (raised_HTTPException
              (mkHTTPException 404 "Address not found"%string)), db)
  | inr (Some db_address) =>
      let update_data := model_dump_exclude_unset address in
      match mapM bind update_data with
      | None => (inl IntegrityError, db)
      | Some stored =>
          let db_address := foldl setattr db_address stored in
          (inr db_address, flush_update db_address db)
      end
  end.

(** [delete_address], main.py:101-109. *)
Definition delete_address (address_id : Z) (db : Table)
  : (raised + gmap string string) * Table :=
  match query_first address_id db with
  | inl e => (inl e, db)
  | inr None =>
      (inl (raised_HTTPException
              (mkHTTPException 404 "Address not found"%string)), db)
  | inr (Some db_address) =>
      (inr {[ "detail"%string := "Address deleted"%string ]},
       flush_delete db_address db)
  end.

(** [get_addresses], main.py:113-116. *)
Definition get_addresses (db : Table) : list Address.t := db.

(** The list comprehension of main.py:127-130: the distance of each
    address in turn, the first exception ending it. *)
Fixpoint within_distance (latitude longitude distance : float)
    (addresses : list Address.t) : raised + list Address.t :=
  match addresses with
  | [] => inr []
  | address :: addresses =>
      match geodesic (latitude, longitude)
              (Address.latitude address, Address.longitude address) with
      | inl e => inl e
      | inr km =>
          match within_distance latitude longitude distance addresses with
          | inl e => inl e
          | inr rest =>
              inr (if PrimFloat.leb km distance then address :: rest else rest)
          end
      end
  end.

(** [get_addresses_within_distance], main.py:120-131. *)
Definition get_addresses_within_distance (latitude longitude distance : float)
    (db : Table) : raised + list Address.t :=
  let addresses := db in
  within_distance latitude longitude distance addresses.

(** *** The five operations as one transition function *)

(** A validated call of one of the five handlers. *)
Inductive op : Type :=
  | Create (address : AddressCreate.t)
  | Update (address_id : Z) (address : AddressUpdate.t)
  | Delete (address_id : Z)
  | ListAll
  | WithinDistance (latitude longitude distance : float).

(** What the framework sends back: the handler's value with the status
    code of its decorator, the raised [HTTPException], the 500 of any
    other exception, or the 422 of a request that did not validate. *)
Inductive response : Type :=
  | resp_address (status : Z) (a : Address.t)
  | resp_detail (d : gmap string string)
  | resp_list (l : list Address.t)
  | resp_error (e : HTTPException)
  | resp_internal_server_error
  | resp_unprocessable.

Definition respond {A} (ok : A → response) (r : raised + A) : response :=
  match r with
  | inr a => ok a
  | inl (raised_HTTPException e) => resp_error e
  | inl _ => resp_internal_server_error
  end.

Definition run (o : op) (db : Table) : response * Table :=
  match o with
  | Create address =>
      let '(r, db') := create_address address db in
      (respond (resp_address 201) r, db')
  | Update address_id address =>
      let '(r, db') := update_address address_id address db in
      (respond (resp_address 200) r, db')
  | Delete address_id =>
      let '(r, db') := delete_address address_id db in
      (respond resp_detail r, db')
  | ListAll => (resp_list (get_addresses db), db)
  | WithinDistance latitude longitude distance =>
      (respond resp_list
         (get_addresses_within_distance latitude longitude distance db), db)
  end.

(** The table after an operation, and after a sequence of them. *)
Definition step (db : Table) (o : op) : Table := (run o db).2.

Definition run_all (ops : list op) (db : Table) : Table := foldl step db ops.

(** The ids the store assigned, in order, along a sequence of
    operations: one per [Create] that returned. *)
Fixpoint assigned_ids (ops : list op) (db : Table) : list Z :=
  match ops with
  | [] => []
  | o :: ops =>
      let '(r, db') := run o db in
      match o, r with
      | Create _, resp_address _ a => Address.id a :: assigned_ids ops db'
      | _, _ => assigned_ids ops db'
      end
  end.

End Service.

(** ** The store's key allocation *)

(** SQLite's rowid for [id = Column(Integer, primary_key=True)]
    (main.py:29; the column is declared without AUTOINCREMENT): one more
    than the largest rowid in the table, and 1 in an empty table. *)
Definition sqlite_rowid (ids : list Z) : Z :=
  match ids with
  | [] => 1
  | i :: ids => foldr Z.max i ids + 1
  end.

(** ** Request validation *)

(** A JSON value of a request body. *)
#[local] Unset Elimination Schemes.
Inductive json : Type :=
  | JNull
  | JBool (b : bool)
  | JNumber (f : float)
  | JString (s : string)
  | JArray (l : list json)
  | JObject (o : list (string * json)).
#[local] Set Elimination Schemes.

Section Validation.

(** Pydantic's conversion of a value that is not [None] to a field
    annotated [str], and to one annotated [float]. *)
Variable as_str : json → option string.
Variable as_float : json → option float.

(** A field annotated with a plain type ([name: str], [latitude:
    float]): [None] is not a value of the type. *)
Definition validate {A} (conv : json → option A) (v : json) : option A :=
  match v with
  | JNull => None
  | _ => conv v
  end.

(** A required field ([name: str]): the key must be there. *)
Definition required {A} (conv : json → option A) (body : gmap string json)
    (key : string) : option A :=
  body !! key ≫= validate conv.

(** A field with a default ([name: str = None]): unset when the key is
    missing (the default is not validated), validated when it is
    there.  The outer option is the validation, the inner one the
    field. *)
Definition defaulted {A} (conv : json → option A) (body : gmap string json)
    (key : string) : option (option A) :=
  match body !! key with
  | None => Some None
  | Some v => Some <$> validate conv v
  end.

Definition AddressCreate_validate (body : gmap string json)
  : option AddressCreate.t :=
  name ← required as_str body "name"%string;
  latitude ← required as_float body "latitude"%string;
  longitude ← required as_float body "longitude"%string;
  Some (AddressCreate.mk name latitude longitude).

Definition AddressUpdate_validate (body : gmap string json)
  : option AddressUpdate.t :=
  name ← defaulted as_str body "name"%string;
  latitude ← defaulted as_float body "latitude"%string;
  longitude ← defaulted as_float body "longitude"%string;
  Some (AddressUpdate.mk name latitude longitude).

(** A request of the public interface, with its JSON body. *)
Inductive request : Type :=
  | POST_addresses (body : gmap string json)
  | PUT_addresses (address_id : Z) (body : gmap string json)
  | DELETE_addresses (address_id : Z)
  | GET_addresses
  | GET_within_distance (latitude longitude distance : float).

(** Validation at the boundary: the handler call of a request, or
    [None] when the body does not validate. *)
Definition dispatch (r : request) : option op :=
  match r with
  | POST_addresses body => Create <$> AddressCreate_validate body
  | PUT_addresses address_id body =>
      Update address_id <$> AddressUpdate_validate body
  | DELETE_addresses address_id => Some (Delete address_id)
  | GET_addresses => Some ListAll
  | GET_within_distance latitude longitude distance =>
      Some (WithinDistance latitude longitude distance)
  end.

Variable new_rowid : list Z → Z.
Variable geodesic_km : float * float → option float * option float → float.

(** A request is validated, and only then handled. *)
Definition serve (r : request) (db : Table) : response * Table :=
  match dispatch r with
  | None => (resp_unprocessable, db)
  | Some o => run new_rowid geodesic_km o db
  end.

Definition serve_all (rs : list request) (db : Table) : Table :=
  foldl (λ db r, (serve r db).2) db rs.

End Validation.

(** ** Running the model on concrete data *)

(** A stand-in for geopy's distance, used only to run the "within
    distance" filter on concrete rows: 111 km per degree along each
    axis, and a missing coordinate read as 0. *)
Definition grid_km (p : float * float) (q : option float * option float)
  : float :=
  (111 * (abs (p.1 - default 0 q.1) + abs (p.2 - default 0 q.2)))%float.

Definition home : AddressCreate.t :=
  AddressCreate.mk "Home" 40%float (-73)%float.

Definition office : AddressCreate.t :=
  AddressCreate.mk "Office" 0%float 0%float.

(** An address north of the pole: a latitude the field description
    excludes and no code checks. *)
Definition pole : AddressCreate.t :=
  AddressCreate.mk "Pole" 91%float (-200)%float.

(** A request that sets [latitude] and nothing else. *)
Definition latitude_only (v : float) : AddressUpdate.t :=
  AddressUpdate.mk None (Some v) None.


(** ** Predicates of the specification *)

(** The record an update leaves, in the specification's words: a field
    present in the request takes the request's value, an omitted field
    keeps the stored one. *)
Definition patched (old : Address.t) (address : AddressUpdate.t) : Address.t :=
  Address.mk (Address.id old)
    (match AddressUpdate.name address with
     | Some v => Some v
     | None => Address.name old
     end)
    (match AddressUpdate.latitude address with
     | Some v => Some v
     | None => Address.latitude old
     end)
    (match AddressUpdate.longitude address with
     | Some v => Some v
     | None => Address.longitude old
     end).

(** The values the store keeps for the fields a request sets: the
    request with each coordinate as [sqlite_real] gives it, and nothing
    when one of them is a NaN. *)
Definition AddressUpdate_bind (address : AddressUpdate.t)
  : option AddressUpdate.t :=
  latitude ← match AddressUpdate.latitude address with
             | None => Some None
             | Some v => Some <$> sqlite_real v
             end;
  longitude ← match AddressUpdate.longitude address with
              | None => Some None
              | Some v => Some <$> sqlite_real v
              end;
  Some (AddressUpdate.mk (AddressUpdate.name address) latitude longitude).

(** The points geopy accepts: the reference point of a query, and the
    coordinates of a row. *)
Definition reference_ok (latitude longitude : float) : Prop :=
  is_Some (Point (Some latitude, Some longitude)).

Definition coordinates_ok (a : Address.t) : Prop :=
  is_Some (Point (Address.latitude a, Address.longitude a)).

(** The operations that insert a row. *)
Definition is_Create (o : op) : Prop :=
  match o with Create _ => True | _ => False end.

(** [latitude] and [longitude] hold a value ([nullable=False],
    main.py:31-32). *)
Definition coordinates_not_null (a : Address.t) : Prop :=
  is_Some (Address.latitude a) ∧ is_Some (Address.longitude a).

(** No column of the record is null. *)
Definition not_null (a : Address.t) : Prop :=
  is_Some (Address.name a) ∧
  is_Some (Address.latitude a) ∧ is_Some (Address.longitude a).

(** The claim that no id is ever assigned twice: along every sequence of
    operations from the empty table, the ids given to the created
    records are pairwise distinct. *)
Definition ids_never_reused (new_rowid : list Z → Z)
    (geodesic_km : float * float → option float * option float → float)
  : Prop :=
  ∀ ops, NoDup (assigned_ids new_rowid geodesic_km ops []).

(** ** The response model *)

(** [class AddressInDB(BaseModel)], main.py:56-60: four required fields,
    none of which accepts [None]. *)
Module AddressInDB.
Record t : Type := mk {
  id : Z;
  name : string;
  latitude : float;
  longitude : float
}.
End AddressInDB.

(** The validation of a returned [Address] against
    [response_model=AddressInDB] (main.py:73, 84, 113, 120): the model is
    filled from the attributes of the object, and fails on a [None]. *)
Definition AddressInDB_validate (a : Address.t) : option AddressInDB.t :=
  name ← Address.name a;
  latitude ← Address.latitude a;
  longitude ← Address.longitude a;
  Some (AddressInDB.mk (Address.id a) name latitude longitude).

(** The value of an answer once its response model has validated it,
    before it is encoded. *)
Inductive validated : Type :=
  | validated_address (status : Z) (a : AddressInDB.t)
  | validated_list (l : list AddressInDB.t)
  | validated_other.

(** The answer of a handler through its response model: [None] when the
    returned value does not validate.  The [dict] of [delete_address]
    and the answers that carry no returned value need no model. *)
Definition response_model (r : response) : option validated :=
  match r with
  | resp_address status a => validated_address status <$> AddressInDB_validate a
  | resp_list l => validated_list <$> mapM AddressInDB_validate l
  | _ => Some validated_other
  end.

(** ** Composition of update requests *)


(** The request with no field set: the body [{}]. *)
Definition AddressUpdate_unset : AddressUpdate.t :=
  AddressUpdate.mk None None None.

(** ** Conversions for concrete requests *)

(** Stand-ins for Pydantic's conversions, used only to run the
    validation on concrete bodies: a JSON string for [str], a JSON
    number for [float]. *)
Definition json_str (v : json) : option string :=
  match v with
  | JString s => Some s
  | _ => None
  end.

Definition json_float (v : json) : option float :=
  match v with
  | JNumber f => Some f
  | _ => None
  end.

(** ** Comparison of binary64 numbers *)

Lemma SFcompare_swap (x y : spec_float) :
  SFcompare y x = CompOpp <$> SFcompare x y.
Proof.
  destruct x as [[]|[]| |[] mx ex], y as [[]|[]| |[] my ey];
    try reflexivity; simpl.
  all: rewrite (Z.compare_antisym ey ex).
  all: destruct (ey ?= ex) eqn:He; simpl; try reflexivity.
  all: change (Pos.compare_cont Eq ?a ?b) with (Pos.compare a b).
  all: rewrite (Pos.compare_antisym my mx); try reflexivity.
  all: by rewrite CompOpp_involutive.
Qed.

Lemma float_eqb_leb (x y : float) :
  PrimFloat.eqb x y = true → PrimFloat.leb x y = true.
Proof.
  rewrite FloatAxioms.eqb_spec, FloatAxioms.leb_spec. unfold SFeqb, SFleb.
  by destruct (SFcompare _ _) as [[]|].
Qed.

Lemma float_ltb_not_leb (x y : float) :
  PrimFloat.ltb x y = true → PrimFloat.leb y x = false.
Proof.
  rewrite FloatAxioms.ltb_spec, FloatAxioms.leb_spec. unfold SFltb, SFleb.
  rewrite (SFcompare_swap (Prim2SF x) (Prim2SF y)).
  by destruct (SFcompare (Prim2SF x) (Prim2SF y)) as [[]|].
Qed.

Lemma lex_le_trans (e1 e2 e3 : Z) (m1 m2 m3 : positive) :
  let c e m e' m' :=
    match e ?= e' with Lt => Lt | Gt => Gt | Eq => (m ?= m')%positive end in
  c e1 m1 e2 m2 ≠ Gt → c e2 m2 e3 m3 ≠ Gt → c e1 m1 e3 m3 ≠ Gt.
Proof.
  simpl.
  destruct (Z.compare_spec e1 e2), (Z.compare_spec e2 e3),
    (Z.compare_spec e1 e3); try done; try lia.
  destruct (Pos.compare_spec m1 m2), (Pos.compare_spec m2 m3),
    (Pos.compare_spec m1 m3); try done; lia.
Qed.

Lemma lex_ge_trans (e1 e2 e3 : Z) (m1 m2 m3 : positive) :
  let c e m e' m' :=
    match e ?= e' with Lt => Lt | Gt => Gt | Eq => (m ?= m')%positive end in
  c e1 m1 e2 m2 ≠ Lt → c e2 m2 e3 m3 ≠ Lt → c e1 m1 e3 m3 ≠ Lt.
Proof.
  simpl.
  destruct (Z.compare_spec e1 e2), (Z.compare_spec e2 e3),
    (Z.compare_spec e1 e3); try done; try lia.
  destruct (Pos.compare_spec m1 m2), (Pos.compare_spec m2 m3),
    (Pos.compare_spec m1 m3); try done; lia.
Qed.

Lemma SFleb_trans (x y z : spec_float) :
  SFleb x y = true → SFleb y z = true → SFleb x z = true.
Proof.
  unfold SFleb.
  destruct x as [[]|[]| |[] mx ex], y as [[]|[]| |[] my ey],
    z as [[]|[]| |[] mz ez]; simpl; try done.
  - pose proof (lex_ge_trans ex ey ez mx my mz) as H. simpl in H.
    change (Pos.compare_cont Eq ?a ?b) with (Pos.compare a b).
    destruct (ex ?= ey), (ey ?= ez), (ex ?= ez);
      try destruct (mx ?= my)%positive; try destruct (my ?= mz)%positive;
      try destruct (mx ?= mz)%positive; simpl in *; try done;
      intros; exfalso; by apply H.
  - pose proof (lex_le_trans ex ey ez mx my mz) as H. simpl in H.
    change (Pos.compare_cont Eq ?a ?b) with (Pos.compare a b).
    destruct (ex ?= ey), (ey ?= ez), (ex ?= ez);
      try destruct (mx ?= my)%positive; try destruct (my ?= mz)%positive;
      try destruct (mx ?= mz)%positive; simpl in *; try done;
      intros; exfalso; by apply H.
Qed.

Lemma float_leb_trans (x y z : float) :
  PrimFloat.leb x y = true → PrimFloat.leb y z = true →
  PrimFloat.leb x z = true.
Proof. rewrite !FloatAxioms.leb_spec. apply SFleb_trans. Qed.

Lemma SFeqb_refl_nan (x : spec_float) : SFeqb x x = false → x = S754_nan.
Proof.
  unfold SFeqb. destruct x as [[]|[]| |[] m e]; simpl; try done.
  all: rewrite Z.compare_refl;
    change (Pos.compare_cont Eq ?a ?b) with (Pos.compare a b);
    by rewrite Pos.compare_refl.
Qed.

Lemma Prim2SF_is_nan (x : float) : is_nan x = true → Prim2SF x = S754_nan.
Proof.
  unfold is_nan. rewrite FloatAxioms.eqb_spec. intros H.
  apply SFeqb_refl_nan. by destruct (SFeqb _ _).
Qed.

Lemma float_leb_nan_r (x d : float) :
  is_nan d = true → PrimFloat.leb x d = false.
Proof.
  intros Hd. rewrite FloatAxioms.leb_spec, (Prim2SF_is_nan d Hd).
  unfold SFleb. by destruct (Prim2SF x) as [[]|[]| |[] ? ?].
Qed.


(** ** What the store keeps of a float *)



(** ** Lists *)

Lemma filter_Forall {A} (P : A → Prop) `{!∀ x, Decision (P x)} (l : list A) :
  Forall P l → filter P l = l.
Proof.
  induction 1 as [|x l Hx _ IH]; [done |].
  by rewrite filter_cons_True, IH.
Qed.

Lemma sublist_filter_impl {A} (P Q : A → Prop) `{!∀ x, Decision (P x)}
    `{!∀ x, Decision (Q x)} (l : list A) :
  (∀ x, P x → Q x) → filter P l `sublist_of` filter Q l.
Proof.
  intros HPQ. induction l as [|x l IH]; [constructor |].
  rewrite !filter_cons. destruct (decide (P x)) as [HP|HP].
  - rewrite decide_True by auto. by constructor.
  - destruct (decide (Q x)); [by constructor | done].
Qed.

(** ** Lookup by primary key *)

Lemma select_first_None (address_id : Z) (db : Table) :
  select_first address_id db = None ↔ address_id ∉ Address.id <$> db.
Proof.
  unfold select_first. induction db as [|a db IH]; simpl.
  - split; [intros _; apply not_elem_of_nil | done].
  - rewrite not_elem_of_cons. destruct (Z.eqb_spec (Address.id a) address_id).
    + split; [done | intros [? _]; congruence].
    + rewrite IH. split; [intros ?; split; [congruence | done] | by intros [_ ?]].
Qed.

Lemma select_first_Some (address_id : Z) (db : Table) (a : Address.t) :
  select_first address_id db = Some a → a ∈ db ∧ Address.id a = address_id.
Proof.
  unfold select_first. induction db as [|b db IH]; simpl; [done |].
  destruct (Z.eqb_spec (Address.id b) address_id).
  - intros [= <-]. split; [left | done].
  - intros H. destruct (IH H). split; [by right | done].
Qed.

Lemma select_first_app (address_id : Z) (db1 db2 : Table) :
  select_first address_id (db1 ++ db2)
  = match select_first address_id db1 with
    | Some a => Some a
    | None => select_first address_id db2
    end.
Proof.
  unfold select_first. induction db1 as [|a db1 IH]; simpl; [done |].
  by destruct (Address.id a =? address_id).
Qed.

Lemma select_first_is_Some (address_id : Z) (db : Table) :
  address_id ∈ Address.id <$> db → is_Some (select_first address_id db).
Proof.
  intros Hin. destruct (select_first address_id db) eqn:E; [by eexists |].
  by apply select_first_None in E.
Qed.

Lemma query_first_int64 (address_id : Z) (db : Table) :
  int64 address_id = true →
  query_first address_id db = inr (select_first address_id db).
Proof. intros H. unfold query_first. by rewrite H. Qed.

Lemma query_first_inr (address_id : Z) (db : Table) (found : option Address.t) :
  query_first address_id db = inr found →
  int64 address_id = true ∧ select_first address_id db = found.
Proof.
  unfold query_first. destruct (int64 address_id); [| done].
  by intros [= <-].
Qed.

(** ** The loop over [update_data] *)

Lemma foldl_setattr_patched (old : Address.t) (address : AddressUpdate.t) :
  foldl setattr old (model_dump_exclude_unset address) = patched old address.
Proof.
  destruct old as [i n la lo], address as [[n'|] [la'|] [lo'|]]; reflexivity.
Qed.

Lemma mapM_bind_model_dump (address : AddressUpdate.t) :
  mapM bind (model_dump_exclude_unset address)
  = model_dump_exclude_unset <$> AddressUpdate_bind address.
Proof.
  destruct address as [[n|] [la|] [lo|]];
    unfold AddressUpdate_bind, model_dump_exclude_unset; simpl;
    try destruct (sqlite_real la); try destruct (sqlite_real lo); reflexivity.
Qed.


(** ** The tables written by a commit *)

Lemma flush_update_ids (a : Address.t) (db : Table) :
  Address.id <$> flush_update a db = Address.id <$> db.
Proof.
  unfold flush_update. induction db as [|b db IH]; [done |].
  rewrite !fmap_cons, IH. f_equal. by case_decide.
Qed.

Lemma select_first_flush_update_eq (a : Address.t) (db : Table) :
  Address.id a ∈ Address.id <$> db →
  select_first (Address.id a) (flush_update a db) = Some a.
Proof.
  unfold select_first, flush_update. induction db as [|b db IH]; simpl.
  - intros H. by apply elem_of_nil in H.
  - intros H. case_decide as Hb; simpl.
    + by rewrite Z.eqb_refl.
    + destruct (Z.eqb_spec (Address.id b) (Address.id a)); [done |].
      apply IH. apply elem_of_cons in H as [H|H]; [congruence | done].
Qed.


(** ** The outcomes of the handlers *)

Lemma update_address_found (address_id : Z) (address stored : AddressUpdate.t)
    (db : Table) (old : Address.t) :
  query_first address_id db = inr (Some old) →
  AddressUpdate_bind address = Some stored →
  update_address address_id address db
  = (inr (patched old stored), flush_update (patched old stored) db).
Proof.
  intros Hold Hbind. unfold update_address.
  by rewrite Hold, mapM_bind_model_dump, Hbind; simpl;
    rewrite foldl_setattr_patched.
Qed.

Lemma update_address_refused (address_id : Z) (address : AddressUpdate.t)
    (db : Table) (old : Address.t) :
  query_first address_id db = inr (Some old) →
  AddressUpdate_bind address = None →
  update_address address_id address db = (inl IntegrityError, db).
Proof.
  intros Hold Hbind. unfold update_address.
  by rewrite Hold, mapM_bind_model_dump, Hbind.
Qed.

Lemma update_address_table (address_id : Z) (address : AddressUpdate.t)
    (db : Table) :
  (update_address address_id address db).2 = db ∨
  ∃ old stored,
    select_first address_id db = Some old ∧
    AddressUpdate_bind address = Some stored ∧
    (update_address address_id address db).2
    = flush_update (patched old stored) db.
Proof.
  unfold update_address.
  destruct (query_first address_id db) as [e|[old|]] eqn:Hq; [by left | | by left].
  rewrite mapM_bind_model_dump.
  destruct (AddressUpdate_bind address) as [stored|] eqn:Hb; [| by left].
  right. exists old, stored. apply query_first_inr in Hq as [_ Hq].
  simpl. by rewrite foldl_setattr_patched.
Qed.


Lemma create_address_table (new_rowid : list Z → Z) (address : AddressCreate.t)
    (db : Table) :
  create_address new_rowid address db = (inl IntegrityError, db) ∨
  ∃ latitude longitude,
    create_address new_rowid address db
    = (inr (Address.mk (new_rowid (Address.id <$> db))
              (Some (AddressCreate.name address)) (Some latitude)
              (Some longitude)),
       db ++ [Address.mk (new_rowid (Address.id <$> db))
                (Some (AddressCreate.name address)) (Some latitude)
                (Some longitude)]).
Proof.
  unfold create_address.
  destruct (sqlite_real (AddressCreate.latitude address)) as [la|];
    [| by left].
  destruct (sqlite_real (AddressCreate.longitude address)) as [lo|];
    [| by left].
  right. by exists la, lo.
Qed.

(** ** Update *)




(** C3, as stated, fails for an id the store cannot hold: the lookup of
    an id outside the 64-bit integers raises before the test for a
    missing record, and the answer is not the 404. *)
Lemma update_overflow_not_404 :
  let db := (create_address sqlite_rowid home []).2 in
  (2 ^ 63 ∉ Address.id <$> db) ∧
  update_address (2 ^ 63) (latitude_only 41) db = (inl OverflowError, db) ∧
  update_address (2 ^ 63) (latitude_only 41) db
    ≠ (inl (raised_HTTPException (mkHTTPException 404 "Address not found")), db).
Proof.
  split; [| split; [reflexivity | discriminate]].
  simpl. rewrite list_elem_of_singleton. discriminate.
Qed.

(** C3, amended.  An update of an id within the 64-bit integers that no
    record has fails with the 404 "Address not found" and leaves the
    table as it was. *)
Theorem update_address_not_found (address_id : Z) (address : AddressUpdate.t)
    (db : Table) :
  int64 address_id = true →
  address_id ∉ Address.id <$> db →
  update_address address_id address db
    = (inl (raised_HTTPException (mkHTTPException 404 "Address not found")),
       db).
Proof.
  intros Hint Hid. apply select_first_None in Hid.
  unfold update_address. by rewrite query_first_int64, Hid.
Qed.

Lemma update_address_not_found_witness :
  let db := (create_address sqlite_rowid home []).2 in
  int64 2 = true ∧
  (2 ∉ Address.id <$> db) ∧
  update_address 2 (latitude_only 41) db
    = (inl (raised_HTTPException (mkHTTPException 404 "Address not found")),
       db).
Proof.
  assert (Hint : int64 2 = true) by reflexivity.
  assert (H : 2 ∉ Address.id <$> (create_address sqlite_rowid home []).2).
  { simpl. rewrite list_elem_of_singleton. discriminate. }
  split; [exact Hint |]. split; [exact H |].
  exact (update_address_not_found 2 (latitude_only 41) _ Hint H).
Defined.

(** ** Create *)

Section Create.

Variable new_rowid : list Z → Z.

(** The store never hands out a key that is in use. *)
Hypothesis new_rowid_fresh : ∀ ids, new_rowid ids ∉ ids.

Lemma create_address_id_fresh (address : AddressCreate.t) (db : Table)
    (a : Address.t) :
  (create_address new_rowid address db).1 = inr a →
  Address.id a ∉ Address.id <$> db.
Proof.
  destruct (create_address_table new_rowid address db)
    as [->|(la & lo & ->)]; [done |].
  intros [= <-]. apply new_rowid_fresh.
Qed.

Lemma create_address_NoDup (address : AddressCreate.t) (db : Table) :
  NoDup (Address.id <$> db) →
  NoDup (Address.id <$> (create_address new_rowid address db).2).
Proof.
  intros Hdb.
  destruct (create_address_table new_rowid address db)
    as [->|(la & lo & ->)]; [done |].
  simpl. rewrite fmap_app. apply NoDup_app.
  split; [done |]. split; [| apply NoDup_singleton].
  intros i Hi Hnew. apply list_elem_of_singleton in Hnew as ->.
  by apply (new_rowid_fresh (Address.id <$> db)).
Qed.

End Create.



(** SQLite's rowid is a free key: it is larger than every key in use. *)
Lemma foldr_max_ge (i : Z) (ids : list Z) (x : Z) :
  x ∈ i :: ids → x ≤ foldr Z.max i ids.
Proof.
  revert i. induction ids as [|j ids IH]; intros i Hx; simpl.
  - apply list_elem_of_singleton in Hx. lia.
  - apply elem_of_cons in Hx as [->|Hx].
    + pose proof (IH i (list_elem_of_here _ _)). lia.
    + apply elem_of_cons in Hx as [->|Hx]; [lia |].
      pose proof (IH i (list_elem_of_further _ _ _ Hx)). lia.
Qed.

Lemma sqlite_rowid_fresh (ids : list Z) : sqlite_rowid ids ∉ ids.
Proof.
  destruct ids as [|i ids]; [apply not_elem_of_nil |].
  intros Hin. apply foldr_max_ge in Hin. simpl in Hin. lia.
Qed.





(** ** The table after each operation *)

Section Steps.

Variable new_rowid : list Z → Z.
Variable geodesic_km : float * float → option float * option float → float.

Lemma step_Create (address : AddressCreate.t) (db : Table) :
  step new_rowid geodesic_km db (Create address)
  = (create_address new_rowid address db).2.
Proof.
  unfold step; simpl. by destruct (create_address _ _ _) as [r db'].
Qed.

Lemma step_Update (address_id : Z) (address : AddressUpdate.t) (db : Table) :
  step new_rowid geodesic_km db (Update address_id address)
  = (update_address address_id address db).2.
Proof.
  unfold step; simpl. by destruct (update_address _ _ _) as [r db'].
Qed.

Lemma step_Delete (address_id : Z) (db : Table) :
  step new_rowid geodesic_km db (Delete address_id)
  = (delete_address address_id db).2.
Proof.
  unfold step; simpl. by destruct (delete_address _ _) as [r db'].
Qed.

Lemma update_address_ids (address_id : Z) (address : AddressUpdate.t)
    (db : Table) :
  Address.id <$> (update_address address_id address db).2 = Address.id <$> db.
Proof.
  destruct (update_address_table address_id address db)
    as [->|(old & stored & _ & _ & ->)]; [done |].
  apply flush_update_ids.
Qed.

(** The table a delete leaves is the table without the rows of the id,
    or the table itself when the delete raises. *)
Lemma delete_address_table (address_id : Z) (db : Table) :
  (delete_address address_id db).2
  = if int64 address_id then filter (λ a, Address.id a ≠ address_id) db
    else db.
Proof.
  unfold delete_address, query_first.
  destruct (int64 address_id); [| done].
  destruct (select_first address_id db) as [a|] eqn:E; simpl.
  - apply select_first_Some in E as [_ <-]. reflexivity.
  - symmetry. apply filter_Forall, Forall_forall. intros a Ha Heq.
    apply select_first_None in E. apply E. rewrite <- Heq.
    by apply list_elem_of_fmap_2.
Qed.

Lemma delete_address_sublist (address_id : Z) (db : Table) :
  (delete_address address_id db).2 `sublist_of` db.
Proof.
  rewrite delete_address_table.
  destruct (int64 address_id); [apply sublist_filter | done].
Qed.

Lemma step_ids_subseteq (o : op) (db : Table) :
  ¬ is_Create o →
  Address.id <$> step new_rowid geodesic_km db o ⊆ Address.id <$> db.
Proof.
  intros Ho. destruct o; simpl in Ho; try done.
  - rewrite step_Update, update_address_ids. done.
  - rewrite step_Delete.
    apply sublist_subseteq, fmap_sublist, delete_address_sublist.
Qed.

Lemma assigned_ids_Create (address : AddressCreate.t) (ops : list op)
    (db : Table) :
  assigned_ids new_rowid geodesic_km (Create address :: ops) db
  = match (create_address new_rowid address db).1 with
    | inr a => [Address.id a]
    | inl _ => []
    end ++ assigned_ids new_rowid geodesic_km ops
             (create_address new_rowid address db).2.
Proof.
  simpl. destruct (create_address _ _ _) as [[e|a] db']; simpl; [| done].
  by destruct e.
Qed.

Lemma assigned_ids_other (o : op) (ops : list op) (db : Table) :
  ¬ is_Create o →
  assigned_ids new_rowid geodesic_km (o :: ops) db
  = assigned_ids new_rowid geodesic_km ops (step new_rowid geodesic_km db o).
Proof.
  intros Ho. unfold step. destruct o; simpl in *; try done.
  - by destruct (update_address _ _ _) as [r db'].
  - by destruct (delete_address _ _) as [r db'].
Qed.

(** An id in the table after a sequence of operations was in the table
    before it, or was assigned by a create of the sequence. *)
Lemma run_all_ids (ops : list op) (db : Table) (i : Z) :
  i ∈ Address.id <$> run_all new_rowid geodesic_km ops db →
  i ∈ Address.id <$> db ∨ i ∈ assigned_ids new_rowid geodesic_km ops db.
Proof.
  revert db. induction ops as [|o ops IH]; intros db Hi; [by left |].
  destruct (IH _ Hi) as [Hstep|Hlater].
  - destruct o as [address| | | |].
    2-5: left; eapply step_ids_subseteq; [| exact Hstep]; by intros [].
    rewrite step_Create in Hstep. rewrite assigned_ids_Create.
    destruct (create_address_table new_rowid address db)
      as [He|(la & lo & He)]; rewrite He in *; simpl in *; [by left |].
    rewrite fmap_app in Hstep. apply elem_of_app in Hstep as [?|Hnew]; [by left |].
    right. apply list_elem_of_singleton in Hnew as ->. left.
  - right. destruct o as [address| | | |].
    2-5: rewrite assigned_ids_other; [done | by intros []].
    rewrite assigned_ids_Create, step_Create in *.
    apply elem_of_app. by right.
Qed.

End Steps.

(** ** Delete *)

(** C5, as stated, fails: a deleted record is not absent from every
    later listing.  Create "Home", delete it, create "Home" again: the
    store gives the new row the freed id, and the list of all addresses
    holds the very record that was deleted. *)
Lemma deleted_record_listed_again :
  let r := Address.mk 1 (Some "Home"%string) (Some 40%float) (Some (-73)%float) in
  let db := run_all sqlite_rowid grid_km [Create home] [] in
  r ∈ db ∧
  delete_address 1 db
    = (inr {[ "detail"%string := "Address deleted"%string ]}, []) ∧
  r ∈ get_addresses
        (run_all sqlite_rowid grid_km [Create home] (delete_address 1 db).2).
Proof. split; [left | split; [reflexivity | left]]. Qed.

(** C5, amended.  For an id within the 64-bit integers: deleting an id
    that no record has fails with the 404 "Address not found" and leaves
    the table as it was; deleting an id that a record has returns
    [{"detail": "Address deleted"}] and removes the record and nothing
    else, the other records staying in their order, and after any
    further operations the id is listed only if a create among them was
    assigned it anew. *)
Theorem delete_address_removes (new_rowid : list Z → Z)
    (geodesic_km : float * float → option float * option float → float)
    (address_id : Z) (db : Table) :
  int64 address_id = true →
  ((address_id ∉ Address.id <$> db) →
     delete_address address_id db
       = (inl (raised_HTTPException
                 (mkHTTPException 404 "Address not found")), db)) ∧
  ((address_id ∈ Address.id <$> db) →
     (delete_address address_id db).1
       = inr {[ "detail"%string := "Address deleted"%string ]} ∧
     (delete_address address_id db).2
       = filter (λ a, Address.id a ≠ address_id) db ∧
     (∀ a, a ∈ get_addresses (delete_address address_id db).2 ↔
             a ∈ db ∧ Address.id a ≠ address_id) ∧
     (∀ ops,
        address_id ∈ Address.id <$>
          get_addresses
            (run_all new_rowid geodesic_km ops (delete_address address_id db).2) →
        address_id ∈ assigned_ids new_rowid geodesic_km ops
                       (delete_address address_id db).2)).
Proof.
  intros Hint.
  pose proof (delete_address_table address_id db) as Htable.
  rewrite Hint in Htable. split.
  - intros Hid. apply select_first_None in Hid.
    unfold delete_address. by rewrite query_first_int64, Hid.
  - intros Hid. split; [| split; [done | split]].
    + unfold delete_address. rewrite query_first_int64 by done.
      by destruct (select_first_is_Some _ _ Hid) as [a ->].
    + intros a. unfold get_addresses.
      rewrite Htable, list_elem_of_filter. tauto.
    + intros ops Hin. unfold get_addresses in Hin.
      apply run_all_ids in Hin as [Hin|Hin]; [exfalso | done].
      rewrite Htable in Hin.
      apply list_elem_of_fmap in Hin as (a & -> & Ha).
      by apply list_elem_of_filter in Ha as [Hne _].
Qed.

Lemma delete_address_removes_witness :
  let db := run_all sqlite_rowid grid_km [Create home; Create office] [] in
  int64 1 = true ∧
  (1 ∈ Address.id <$> db) ∧
  delete_address 1 db
    = (inr {[ "detail"%string := "Address deleted"%string ]},
       [Address.mk 2 (Some "Office"%string) (Some 0%float) (Some 0%float)]) ∧
  (1 ∈ Address.id <$>
         get_addresses (run_all sqlite_rowid grid_km [ListAll; Delete 2]
                          (delete_address 1 db).2) →
   1 ∈ assigned_ids sqlite_rowid grid_km [ListAll; Delete 2]
         (delete_address 1 db).2).
Proof.
  assert (Hint : int64 1 = true) by reflexivity.
  split; [exact Hint |]. split; [left |]. split; [reflexivity |].
  destruct (delete_address_removes sqlite_rowid grid_km 1
              (run_all sqlite_rowid grid_km [Create home; Create office] [])
              Hint) as [_ Hpresent].
  destruct (Hpresent ltac:(left)) as (_ & _ & _ & Hlater).
  exact (Hlater [ListAll; Delete 2]).
Defined.

(** ** Within distance *)

Section Within.

Variable geodesic_km : float * float → option float * option float → float.

Lemma geodesic_inr (p : float * float) (q : option float * option float)
    (km : float) :
  geodesic geodesic_km p q = inr km ↔
  reference_ok p.1 p.2 ∧ is_Some (Point q) ∧ km = geodesic_km p q.
Proof.
  unfold geodesic, reference_ok.
  destruct (Point (Some p.1, Some p.2)) as [p'|], (Point q) as [q'|];
    split; try done.
  - intros [= <-]. by repeat split; eexists.
  - by intros (_ & _ & ->).
  - by intros (_ & [] & _).
  - by intros ([] & _).
  - by intros ([] & _).
Qed.

(** The query returns a list when the table is empty or geopy accepts
    every point it is given, and the list is then the table filtered by
    the comparison of main.py:129. *)
Lemma within_distance_inr (latitude longitude distance : float) (db : Table)
    (l : list Address.t) :
  within_distance geodesic_km latitude longitude distance db = inr l ↔
  (db = [] ∨ reference_ok latitude longitude) ∧
  Forall coordinates_ok db ∧
  l = filter
        (λ a, PrimFloat.leb
                (geodesic_km (latitude, longitude)
                   (Address.latitude a, Address.longitude a))
                distance = true) db.
Proof.
  revert l. induction db as [|a db IH]; intros l; simpl.
  - split; [intros [= <-]; by repeat split; [left | constructor] |].
    by intros (_ & _ & ->).
  - destruct (geodesic _ _ _) as [e|km] eqn:Hg.
    + split; [done |]. intros ([|Href] & Hdb & _); [done |].
      apply Forall_cons in Hdb as [Ha _].
      assert (Hkm : geodesic geodesic_km (latitude, longitude)
                      (Address.latitude a, Address.longitude a)
                    = inr (geodesic_km (latitude, longitude)
                             (Address.latitude a, Address.longitude a)))
        by (by apply geodesic_inr).
      congruence.
    + apply geodesic_inr in Hg as (Href & Ha & ->). simpl in Href.
      destruct (within_distance _ _ _ _ db) as [e|rest] eqn:Hrest.
      * split; [done |]. intros (_ & Hdb & _).
        apply Forall_cons in Hdb as [_ Hdb].
        pose proof (proj2 (IH _) (conj (or_intror Href) (conj Hdb eq_refl))).
        congruence.
      * destruct (proj1 (IH rest) eq_refl) as (_ & Hdb & ->).
        rewrite filter_cons. split.
        -- intros [= <-]. split; [by right |]. split; [by constructor |].
           by destruct (PrimFloat.leb _ _); [rewrite decide_True | rewrite decide_False].
        -- intros (_ & _ & ->).
           by destruct (PrimFloat.leb _ _); [rewrite decide_True | rewrite decide_False].
Qed.

Lemma within_distance_inl (latitude longitude distance : float) (db : Table)
    (e : raised) :
  within_distance geodesic_km latitude longitude distance db = inl e →
  e = ValueError.
Proof.
  revert e. induction db as [|a db IH]; intros e; simpl; [done |].
  destruct (geodesic geodesic_km _ _) as [e'|km] eqn:Hg.
  - intros [= <-]. unfold geodesic in Hg. repeat case_match; congruence.
  - destruct (within_distance _ _ _ _ db) as [e'|rest]; [| done].
    intros [= <-]. by apply IH.
Qed.

End Within.

(** C2, as stated, fails: the query does not return the records within
    the distance for every table.  With an office at the reference
    point and an address at latitude 91 in the table, which create
    accepts, geopy refuses the second point and the query raises instead
    of returning the office. *)
Lemma within_distance_raises :
  let db := run_all sqlite_rowid grid_km [Create office; Create pole] [] in
  Address.mk 1 (Some "Office"%string) (Some 0%float) (Some 0%float) ∈ db ∧
  get_addresses_within_distance grid_km 0 0 0 db = inl ValueError.
Proof. split; [left | vm_compute; reflexivity]. Qed.

(** C2, amended.  The "within distance" query returns a list exactly
    when the table is empty or geopy accepts the reference point and the
    coordinates of every stored record (finite, the latitude within
    -90..90); otherwise it raises [ValueError].  The list it returns
    holds exactly the stored records whose distance from the reference
    point is at most [distance], the bound included: a record whose
    distance equals [distance] is returned (so is, for a distance of 0,
    a record whose distance is 0), and a record whose distance is
    greater is not. *)
Theorem within_distance_inclusive
    (geodesic_km : float * float → option float * option float → float)
    (latitude longitude distance : float) (db : Table) :
  let km a :=
    geodesic_km (latitude, longitude)
      (Address.latitude a, Address.longitude a) in
  let within d := get_addresses_within_distance geodesic_km latitude longitude d db in
  ((∃ l, within distance = inr l) ↔
     (db = [] ∨ reference_ok latitude longitude) ∧ Forall coordinates_ok db) ∧
  (∀ e, within distance = inl e → e = ValueError) ∧
  (∀ l, within distance = inr l →
     (∀ a, a ∈ l ↔ a ∈ db ∧ PrimFloat.leb (km a) distance = true) ∧
     (∀ a, a ∈ db → PrimFloat.eqb (km a) distance = true → a ∈ l) ∧
     (∀ a, PrimFloat.ltb distance (km a) = true → a ∉ l)) ∧
  (∀ l, within 0%float = inr l → ∀ a, a ∈ db → km a = 0%float → a ∈ l).
Proof.
  intros km within. unfold within, get_addresses_within_distance.
  assert (Hmem : ∀ d l,
            within_distance geodesic_km latitude longitude d db = inr l →
            ∀ a, a ∈ l ↔ a ∈ db ∧ PrimFloat.leb (km a) d = true).
  { intros d l Hl a. apply within_distance_inr in Hl as (_ & _ & ->).
    rewrite list_elem_of_filter. tauto. }
  split; [| split; [| split]].
  - split.
    + intros [l Hl]. by apply within_distance_inr in Hl as (? & ? & _).
    + intros [Href Hdb]. eexists. by apply within_distance_inr.
  - apply within_distance_inl.
  - intros l Hl. split; [by apply Hmem |]. split.
    + intros a Ha Heq. apply (Hmem _ _ Hl).
      split; [done | by apply float_eqb_leb].
    + intros a Hlt Hin. apply (Hmem _ _ Hl) in Hin as [_ Hle].
      apply float_ltb_not_leb in Hlt. congruence.
  - intros l Hl a Ha Hz. apply (Hmem _ _ Hl). split; [done |]. by rewrite Hz.
Qed.

(** With [grid_km] standing for the distance: of an office at (0, 0) and
    a home at (40, -73), a query at (0, 0) with distance 0 returns the
    office and not the home. *)
Example within_distance_zero :
  let db :=
    run_all sqlite_rowid grid_km [Create office; Create home] [] in
  get_addresses_within_distance grid_km 0 0 0 db
  = inr [Address.mk 1 (Some "Office"%string) (Some 0%float) (Some 0%float)].
Proof. vm_compute. reflexivity. Qed.

(** C10.  Whatever the table, the reference point and the distance, the
    list the "within distance" query returns is a subsequence of the
    list of all addresses: the records kept are in the order of the
    table, none twice, none moved. *)
Theorem within_distance_sublist
    (geodesic_km : float * float → option float * option float → float)
    (latitude longitude distance : float) (db : Table) (l : list Address.t) :
  get_addresses_within_distance geodesic_km latitude longitude distance db
    = inr l →
  l `sublist_of` get_addresses db.
Proof.
  unfold get_addresses_within_distance, get_addresses. intros Hl.
  apply within_distance_inr in Hl as (_ & _ & ->). apply sublist_filter.
Qed.

Lemma within_distance_sublist_witness :
  let db :=
    run_all sqlite_rowid grid_km [Create home; Create office; Create home] [] in
  let l := [Address.mk 1 (Some "Home"%string) (Some 40%float) (Some (-73)%float);
            Address.mk 3 (Some "Home"%string) (Some 40%float) (Some (-73)%float)] in
  get_addresses_within_distance grid_km 40 (-73) 1 db = inr l ∧
  l `sublist_of` get_addresses db.
Proof.
  assert (H : get_addresses_within_distance grid_km 40 (-73) 1
                (run_all sqlite_rowid grid_km
                   [Create home; Create office; Create home] [])
              = inr [Address.mk 1 (Some "Home"%string) (Some 40%float)
                       (Some (-73)%float);
                     Address.mk 3 (Some "Home"%string) (Some 40%float)
                       (Some (-73)%float)])
    by (vm_compute; reflexivity).
  split; [exact H |].
  exact (within_distance_sublist grid_km 40 (-73) 1 _ _ H).
Defined.

(** ** Invariants of the table *)

Section Invariants.

Variable new_rowid : list Z → Z.
Variable geodesic_km : float * float → option float * option float → float.

(** A property of records that every created record has and that
    assigning a request's value to an attribute keeps. *)
Variable P : Address.t → Prop.
Hypothesis P_created :
  ∀ i name latitude longitude,
    P (Address.mk i (Some name) (Some latitude) (Some longitude)).
Hypothesis P_setattr : ∀ a kv, P a → P (setattr a kv).

Lemma foldl_setattr_preserves (kvs : list item) (a : Address.t) :
  P a → P (foldl setattr a kvs).
Proof.
  revert a. induction kvs as [|kv kvs IH]; intros a Ha; simpl; [done |].
  by apply IH, P_setattr.
Qed.

Lemma step_preserves (o : op) (db : Table) :
  Forall P db → Forall P (step new_rowid geodesic_km db o).
Proof.
  intros Hdb. destruct o as [address|address_id address|address_id| |].
  - rewrite step_Create.
    destruct (create_address_table new_rowid address db)
      as [->|(la & lo & ->)]; [done |].
    simpl. apply Forall_app. split; [done |].
    apply Forall_singleton, P_created.
  - rewrite step_Update.
    destruct (update_address_table address_id address db)
      as [->|(old & stored & Hold & _ & ->)]; [done |].
    apply select_first_Some in Hold as [Hold _].
    unfold flush_update. apply Forall_fmap, Forall_forall. intros a Ha; simpl.
    rewrite Forall_forall in Hdb. case_decide; [| by apply Hdb].
    rewrite <- foldl_setattr_patched. apply foldl_setattr_preserves.
    by apply Hdb.
  - rewrite step_Delete.
    rewrite Forall_forall in Hdb. apply Forall_forall. intros a Ha.
    apply Hdb.
    by apply (sublist_subseteq _ _ (delete_address_sublist address_id db)).
  - done.
  - done.
Qed.

Lemma run_all_preserves (ops : list op) (db : Table) :
  Forall P db → Forall P (run_all new_rowid geodesic_km ops db).
Proof.
  revert db. induction ops as [|o ops IH]; intros db Hdb; simpl; [done |].
  by apply IH, step_preserves.
Qed.

End Invariants.

Lemma coordinates_not_null_setattr (a : Address.t) (kv : item) :
  coordinates_not_null a → coordinates_not_null (setattr a kv).
Proof. intros [??]. destruct kv; split; simpl; eauto. Qed.

Lemma not_null_setattr (a : Address.t) (kv : item) :
  not_null a → not_null (setattr a kv).
Proof. intros (? & ? & ?). destruct kv; repeat split; simpl; eauto. Qed.

(** C8.  Each of the five operations keeps the invariant that every
    persisted record has a latitude and a longitude, so every table the
    service reaches from the empty one has it; and no operation changes
    the id of a record: a create appends one record to the table or
    leaves it alone, an update leaves the id at every position of the
    table as it was, a delete leaves a subsequence of the table, and the
    two queries leave the table alone. *)
Theorem invariants_preserved (new_rowid : list Z → Z)
    (geodesic_km : float * float → option float * option float → float)
    (o : op) (db : Table) :
  (Forall coordinates_not_null db →
     Forall coordinates_not_null (step new_rowid geodesic_km db o)) ∧
  (∀ ops, Forall coordinates_not_null (run_all new_rowid geodesic_km ops [])) ∧
  match o with
  | Create _ =>
      step new_rowid geodesic_km db o = db ∨
      ∃ a, step new_rowid geodesic_km db o = db ++ [a]
  | Update _ _ =>
      Address.id <$> step new_rowid geodesic_km db o = Address.id <$> db
  | Delete _ => step new_rowid geodesic_km db o `sublist_of` db
  | ListAll | WithinDistance _ _ _ => step new_rowid geodesic_km db o = db
  end.
Proof.
  assert (Hcreated : ∀ i name latitude longitude,
            coordinates_not_null
              (Address.mk i (Some name) (Some latitude) (Some longitude))).
  { intros. split; simpl; eauto. }
  split; [| split].
  - apply step_preserves; [exact Hcreated | exact coordinates_not_null_setattr].
  - intros ops.
    apply run_all_preserves;
      [exact Hcreated | exact coordinates_not_null_setattr | constructor].
  - destruct o as [address|address_id address|address_id| |].
    + rewrite step_Create.
      destruct (create_address_table new_rowid address db)
        as [->|(la & lo & ->)]; [by left | right; by eexists].
    + rewrite step_Update. apply update_address_ids.
    + rewrite step_Delete. apply delete_address_sublist.
    + reflexivity.
    + reflexivity.
Qed.

(** ** Ids *)

Section Ids.

Variable new_rowid : list Z → Z.
Variable geodesic_km : float * float → option float * option float → float.
Hypothesis new_rowid_fresh : ∀ ids, new_rowid ids ∉ ids.

Lemma step_NoDup (o : op) (db : Table) :
  NoDup (Address.id <$> db) →
  NoDup (Address.id <$> step new_rowid geodesic_km db o).
Proof.
  intros Hdb. destruct o as [address|address_id address|address_id| |].
  - rewrite step_Create. by apply create_address_NoDup.
  - by rewrite step_Update, update_address_ids.
  - rewrite step_Delete.
    eapply sublist_NoDup; [exact Hdb |].
    apply fmap_sublist, delete_address_sublist.
  - done.
  - done.
Qed.

Lemma run_all_NoDup (ops : list op) (db : Table) :
  NoDup (Address.id <$> db) →
  NoDup (Address.id <$> run_all new_rowid geodesic_km ops db).
Proof.
  revert db. induction ops as [|o ops IH]; intros db Hdb; simpl; [done |].
  by apply IH, step_NoDup.
Qed.

End Ids.

(** C6, as stated, fails on the store the service is configured with:
    create a record (it gets id 1), delete it, create another (it gets
    id 1 again). *)
Lemma id_reused_after_delete :
  assigned_ids sqlite_rowid grid_km [Create home; Delete 1; Create office] []
    = [1; 1] ∧
  ¬ ids_never_reused sqlite_rowid grid_km.
Proof.
  assert (H : assigned_ids sqlite_rowid grid_km
                [Create home; Delete 1; Create office] [] = [1; 1])
    by (vm_compute; reflexivity).
  split; [exact H |].
  intros Hclaim. specialize (Hclaim [Create home; Delete 1; Create office]).
  rewrite H in Hclaim. apply NoDup_cons in Hclaim as [Hin _].
  apply Hin. left.
Qed.

(** C6, amended.  Along every sequence of operations from the empty
    table, the persisted records have pairwise distinct ids, and the id
    a create assigns is the id of no record persisted at that time. *)
Theorem persisted_ids_unique (new_rowid : list Z → Z)
    (geodesic_km : float * float → option float * option float → float)
    (ops : list op) :
  (∀ ids, new_rowid ids ∉ ids) →
  let db := run_all new_rowid geodesic_km ops [] in
  NoDup (Address.id <$> db) ∧
  ∀ address a,
    (create_address new_rowid address db).1 = inr a →
    Address.id a ∉ Address.id <$> db.
Proof.
  intros Hfresh db. split.
  - apply run_all_NoDup; [exact Hfresh | constructor].
  - intros address a. by apply create_address_id_fresh.
Qed.

Lemma persisted_ids_unique_witness :
  (∀ ids, sqlite_rowid ids ∉ ids) ∧
  let db :=
    run_all sqlite_rowid grid_km [Create home; Delete 1; Create office] [] in
  NoDup (Address.id <$> db) ∧
  ∀ address a,
    (create_address sqlite_rowid address db).1 = inr a →
    Address.id a ∉ Address.id <$> db.
Proof.
  split; [exact sqlite_rowid_fresh |].
  exact (persisted_ids_unique sqlite_rowid grid_km
           [Create home; Delete 1; Create office] sqlite_rowid_fresh).
Defined.

(** ** The validation boundary *)

Section Boundary.

Variable as_str : json → option string.
Variable as_float : json → option float.
Variable new_rowid : list Z → Z.
Variable geodesic_km : float * float → option float * option float → float.

Lemma defaulted_null {A} (conv : json → option A) (body : gmap string json)
    (key : string) :
  body !! key = Some JNull → defaulted conv body key = None.
Proof. intros H. unfold defaulted. by rewrite H. Qed.

Lemma AddressUpdate_validate_null (body : gmap string json) (key : string) :
  key ∈ ["name"; "latitude"; "longitude"]%string →
  body !! key = Some JNull →
  AddressUpdate_validate as_str as_float body = None.
Proof.
  intros Hkey Hnull. unfold AddressUpdate_validate.
  repeat (apply elem_of_cons in Hkey as [->|Hkey]).
  - by rewrite (defaulted_null as_str body _ Hnull).
  - rewrite (defaulted_null as_float body _ Hnull).
    by destruct (defaulted as_str body "name").
  - rewrite (defaulted_null as_float body "longitude" Hnull).
    destruct (defaulted as_str body "name"); [| done]; simpl.
    by destruct (defaulted as_float body "latitude").
  - by apply elem_of_nil in Hkey.
Qed.

Lemma serve_preserves (r : request) (db : Table) :
  Forall not_null db →
  Forall not_null (serve as_str as_float new_rowid geodesic_km r db).2.
Proof.
  intros Hdb. unfold serve.
  destruct (dispatch as_str as_float r) as [o|]; [| done].
  apply (step_preserves new_rowid geodesic_km not_null); [| | done].
  - intros. repeat split; simpl; eauto.
  - exact not_null_setattr.
Qed.

Lemma serve_all_preserves (rs : list request) (db : Table) :
  Forall not_null db →
  Forall not_null (serve_all as_str as_float new_rowid geodesic_km rs db).
Proof.
  revert db. induction rs as [|r rs IH]; intros db Hdb; simpl; [done |].
  by apply IH, serve_preserves.
Qed.

End Boundary.

(** C9.  A PUT whose body gives [null] for [name], [latitude] or
    [longitude] does not validate: no handler is called, the answer is
    the 422 and the table is the one before the request.  And whatever
    requests the service has served since it started with an empty
    table, no persisted record has a null name, latitude or longitude. *)
Theorem null_never_persisted (as_str : json → option string)
    (as_float : json → option float) (new_rowid : list Z → Z)
    (geodesic_km : float * float → option float * option float → float) :
  (∀ (address_id : Z) (body : gmap string json) (db : Table) (key : string),
     key ∈ ["name"; "latitude"; "longitude"]%string →
     body !! key = Some JNull →
     dispatch as_str as_float (PUT_addresses address_id body) = None ∧
     serve as_str as_float new_rowid geodesic_km
       (PUT_addresses address_id body) db = (resp_unprocessable, db)) ∧
  (∀ rs : list request,
     Forall not_null (serve_all as_str as_float new_rowid geodesic_km rs [])).
Proof.
  split.
  - intros address_id body db key Hkey Hnull.
    assert (Hd : dispatch as_str as_float (PUT_addresses address_id body) = None).
    { simpl. by rewrite (AddressUpdate_validate_null as_str as_float body key). }
    split; [exact Hd |]. unfold serve. by rewrite Hd.
  - intros rs. apply serve_all_preserves. constructor.
Qed.

(** ** Updates in sequence *)


Lemma flush_update_twice (a b : Address.t) (db : Table) :
  Address.id a = Address.id b →
  flush_update b (flush_update a db) = flush_update b db.
Proof.
  intros Hab. unfold flush_update. rewrite <- list_fmap_compose.
  apply list_fmap_ext. intros k c _; simpl.
  destruct (decide (Address.id c = Address.id a)) as [Hc|Hc].
  - rewrite decide_True by congruence. by rewrite decide_True by congruence.
  - done.
Qed.

(** Records of a table with unique ids are told apart by their id. *)
Lemma NoDup_id_inj (db : Table) (a b : Address.t) :
  NoDup (Address.id <$> db) → a ∈ db → b ∈ db →
  Address.id a = Address.id b → a = b.
Proof.
  induction db as [|c db IH]; intros Hnd Ha Hb Hab.
  - by apply elem_of_nil in Ha.
  - rewrite fmap_cons in Hnd. apply NoDup_cons in Hnd as [Hc Hnd].
    apply elem_of_cons in Ha as [->|Ha], Hb as [->|Hb].
    + done.
    + exfalso. apply Hc. rewrite Hab. by apply list_elem_of_fmap_2.
    + exfalso. apply Hc. rewrite <- Hab. by apply list_elem_of_fmap_2.
    + by apply IH.
Qed.

Lemma flush_update_stored (old : Address.t) (db : Table) :
  NoDup (Address.id <$> db) → old ∈ db → flush_update old db = db.
Proof.
  intros Hnd Hold. unfold flush_update.
  rewrite <- (list_fmap_id db) at 2. apply list_fmap_ext.
  intros k a Ha; simpl. apply list_elem_of_lookup_2 in Ha.
  case_decide as Heq; [| done]. symmetry. by apply (NoDup_id_inj db).
Qed.

Lemma patched_idemp (old : Address.t) (stored : AddressUpdate.t) :
  patched (patched old stored) stored = patched old stored.
Proof. by destruct old as [i n la lo], stored as [[?|] [?|] [?|]]. Qed.


Lemma query_first_updated (address_id : Z) (db : Table) (old new : Address.t) :
  query_first address_id db = inr (Some old) →
  Address.id new = Address.id old →
  query_first address_id (flush_update new db) = inr (Some new).
Proof.
  intros Hold Hid. apply query_first_inr in Hold as [Hint Hsel].
  apply select_first_Some in Hsel as [Hin Hold].
  rewrite query_first_int64 by done. f_equal.
  rewrite <- Hold, <- Hid. apply select_first_flush_update_eq.
  rewrite Hid. by apply list_elem_of_fmap_2.
Qed.



(** X2.  An update is idempotent: sending the same request again gives
    the same answer and leaves the table as the first one left it. *)
Theorem update_address_idempotent (address_id : Z) (address : AddressUpdate.t)
    (db : Table) :
  update_address address_id address (update_address address_id address db).2
  = ((update_address address_id address db).1,
     (update_address address_id address db).2).
Proof.
  destruct (query_first address_id db) as [e|[old|]] eqn:Hold.
  - unfold update_address. rewrite Hold; simpl. by rewrite Hold.
  - destruct (AddressUpdate_bind address) as [stored|] eqn:Hb.
    + rewrite (update_address_found _ _ _ _ _ Hold Hb); simpl.
      rewrite (update_address_found _ address stored _ (patched old stored)
                 (query_first_updated _ _ old (patched old stored) Hold eq_refl)
                 Hb).
      by rewrite patched_idemp, flush_update_twice.
    + rewrite (update_address_refused _ _ _ _ Hold Hb); simpl.
      by rewrite (update_address_refused _ _ _ _ Hold Hb).
  - unfold update_address. rewrite Hold; simpl. by rewrite Hold.
Qed.

(** X3.  An update with no field set (the body [{}]) of a stored record
    returns the record as it is stored and, the ids of the table being
    unique, leaves the table as it was. *)
Theorem update_address_unset (address_id : Z) (db : Table) (old : Address.t) :
  NoDup (Address.id <$> db) →
  query_first address_id db = inr (Some old) →
  update_address address_id AddressUpdate_unset db = (inr old, db).
Proof.
  intros Hnd Hold.
  rewrite (update_address_found _ AddressUpdate_unset AddressUpdate_unset
             _ _ Hold eq_refl).
  apply query_first_inr in Hold as [_ Hold].
  destruct (select_first_Some _ _ _ Hold) as [Hin _].
  destruct old as [i n la lo]. unfold patched; simpl.
  by rewrite flush_update_stored.
Qed.

Lemma update_address_unset_witness :
  let db := run_all sqlite_rowid grid_km [Create home; Create office] [] in
  let old := Address.mk 2 (Some "Office"%string) (Some 0%float) (Some 0%float) in
  NoDup (Address.id <$> db) ∧
  query_first 2 db = inr (Some old) ∧
  update_address 2 AddressUpdate_unset db = (inr old, db).
Proof.
  assert (Hnd : NoDup (Address.id <$>
                  run_all sqlite_rowid grid_km [Create home; Create office] [])).
  { apply (run_all_NoDup sqlite_rowid grid_km sqlite_rowid_fresh). constructor. }
  assert (Hq : query_first 2
                 (run_all sqlite_rowid grid_km [Create home; Create office] [])
               = inr (Some (Address.mk 2 (Some "Office"%string) (Some 0%float)
                              (Some 0%float)))) by reflexivity.
  split; [exact Hnd |]. split; [exact Hq |].
  exact (update_address_unset 2 _ _ Hnd Hq).
Defined.

(** ** Deletes in sequence *)

Lemma select_first_deleted (address_id : Z) (db : Table) :
  select_first address_id (filter (λ a, Address.id a ≠ address_id) db) = None.
Proof.
  apply select_first_None.
  intros Hin. apply list_elem_of_fmap in Hin as (a & -> & Ha).
  by apply list_elem_of_filter in Ha as [Hne _].
Qed.

Lemma filter_id_ne_length (address_id : Z) (db : Table) :
  NoDup (Address.id <$> db) →
  address_id ∈ Address.id <$> db →
  S (length (filter (λ a, Address.id a ≠ address_id) db)) = length db.
Proof.
  induction db as [|a db IH]; intros Hnd Hin.
  - by apply elem_of_nil in Hin.
  - rewrite fmap_cons in Hnd, Hin. apply NoDup_cons in Hnd as [Ha Hnd].
    destruct (decide (Address.id a = address_id)) as [Heq|Hne].
    + rewrite filter_cons_False by (intros Hne; by apply Hne). simpl.
      f_equal. f_equal. apply filter_Forall, Forall_forall. intros b Hb Hbid.
      apply Ha. rewrite Heq, <- Hbid. by apply list_elem_of_fmap_2.
    + rewrite filter_cons_True by done. simpl. f_equal. apply IH; [done |].
      apply elem_of_cons in Hin as [Hin|Hin]; [congruence | done].
Qed.

(** X4.  Once an id within the 64-bit integers is deleted, whether it
    was there or not, a second delete and an update of it both fail with
    the 404 and leave the table as the first delete left it. *)
Theorem delete_address_twice (address_id : Z) (address : AddressUpdate.t)
    (db : Table) :
  int64 address_id = true →
  let db' := (delete_address address_id db).2 in
  delete_address address_id db'
    = (inl (raised_HTTPException (mkHTTPException 404 "Address not found")),
       db') ∧
  update_address address_id address db'
    = (inl (raised_HTTPException (mkHTTPException 404 "Address not found")),
       db').
Proof.
  intros Hint db'. subst db'.
  rewrite delete_address_table, Hint.
  unfold delete_address, update_address.
  by rewrite query_first_int64, select_first_deleted.
Qed.

Lemma delete_address_twice_witness :
  let db := run_all sqlite_rowid grid_km [Create home; Create office] [] in
  let db' := [Address.mk 2 (Some "Office"%string) (Some 0%float) (Some 0%float)] in
  int64 1 = true ∧
  (delete_address 1 db).2 = db' ∧
  delete_address 1 db'
    = (inl (raised_HTTPException (mkHTTPException 404 "Address not found")),
       db').
Proof.
  assert (Hint : int64 1 = true) by reflexivity.
  split; [exact Hint |]. split; [reflexivity |].
  exact (proj1 (delete_address_twice 1 AddressUpdate_unset
                  (run_all sqlite_rowid grid_km [Create home; Create office] [])
                  Hint)).
Defined.

(** X5.  Deleting the record a create has just returned, by the id the
    create assigned, is acknowledged and gives back the table from
    before the create. *)
Theorem create_then_delete (new_rowid : list Z → Z)
    (address : AddressCreate.t) (db db' : Table) (a : Address.t) :
  (∀ ids, new_rowid ids ∉ ids) →
  create_address new_rowid address db = (inr a, db') →
  int64 (Address.id a) = true →
  delete_address (Address.id a) db'
  = (inr {[ "detail"%string := "Address deleted"%string ]}, db).
Proof.
  intros Hfresh Hcreate Hint.
  pose proof (create_address_id_fresh new_rowid Hfresh address db a) as Hid.
  rewrite Hcreate in Hid. specialize (Hid eq_refl).
  destruct (create_address_table new_rowid address db)
    as [He|(la & lo & He)]; rewrite He in Hcreate; [done |].
  injection Hcreate as Ha Hdb. rewrite Ha in Hdb. subst db'. clear He Ha.
  assert (Hq : select_first (Address.id a) (db ++ [a]) = Some a).
  { rewrite select_first_app. apply select_first_None in Hid. rewrite Hid.
    unfold select_first; simpl. by rewrite Z.eqb_refl. }
  unfold delete_address. rewrite query_first_int64, Hq by done.
  f_equal. unfold flush_delete.
  rewrite filter_app, filter_cons_False, filter_nil, app_nil_r
    by (intros Hne; by apply Hne).
  apply filter_Forall, Forall_forall. intros b Hb Heq.
  apply Hid. rewrite <- Heq. by apply list_elem_of_fmap_2.
Qed.

Lemma create_then_delete_witness :
  let db := (create_address sqlite_rowid home []).2 in
  let a := Address.mk 2 (Some "Office"%string) (Some 0%float) (Some 0%float) in
  (∀ ids, sqlite_rowid ids ∉ ids) ∧
  create_address sqlite_rowid office db = (inr a, db ++ [a]) ∧
  int64 (Address.id a) = true ∧
  delete_address (Address.id a) (db ++ [a])
  = (inr {[ "detail"%string := "Address deleted"%string ]}, db).
Proof.
  assert (Hc : create_address sqlite_rowid office
                 (create_address sqlite_rowid home []).2
               = (inr (Address.mk 2 (Some "Office"%string) (Some 0%float)
                         (Some 0%float)),
                  (create_address sqlite_rowid home []).2
                  ++ [Address.mk 2 (Some "Office"%string) (Some 0%float)
                        (Some 0%float)])) by reflexivity.
  assert (Hint : int64 2 = true) by reflexivity.
  split; [exact sqlite_rowid_fresh |]. split; [exact Hc |].
  split; [exact Hint |].
  exact (create_then_delete sqlite_rowid office _ _ _ sqlite_rowid_fresh Hc Hint).
Defined.

(** X6.  On a table whose ids are unique, the number of records goes up
    by one with a create that returns a record and stays with one that
    raises, stays with an update, and goes down by exactly one with the
    delete of an id within the 64-bit integers that is there. *)
Theorem record_count (new_rowid : list Z → Z) (db : Table) :
  NoDup (Address.id <$> db) →
  (∀ address,
     length (create_address new_rowid address db).2
     = match (create_address new_rowid address db).1 with
       | inr _ => S (length db)
       | inl _ => length db
       end) ∧
  (∀ address_id address,
     length (update_address address_id address db).2 = length db) ∧
  (∀ address_id,
     int64 address_id = true →
     address_id ∈ Address.id <$> db →
     S (length (delete_address address_id db).2) = length db).
Proof.
  intros Hnd. split; [| split].
  - intros address.
    destruct (create_address_table new_rowid address db)
      as [->|(la & lo & ->)]; [done |].
    simpl. rewrite length_app. simpl. lia.
  - intros address_id address.
    rewrite <- (length_fmap Address.id), update_address_ids.
    apply length_fmap.
  - intros address_id Hint Hin. rewrite delete_address_table, Hint.
    by apply filter_id_ne_length.
Qed.

Lemma record_count_witness :
  let db := run_all sqlite_rowid grid_km [Create home; Create office] [] in
  NoDup (Address.id <$> db) ∧
  length (create_address sqlite_rowid pole db).2 = 3%nat ∧
  length (create_address sqlite_rowid (AddressCreate.mk "Nowhere" nan 0) db).2
    = 2%nat ∧
  S (length (delete_address 1 db).2) = length db.
Proof.
  assert (Hnd : NoDup (Address.id <$>
                  run_all sqlite_rowid grid_km [Create home; Create office] [])).
  { apply (run_all_NoDup sqlite_rowid grid_km sqlite_rowid_fresh). constructor. }
  split; [exact Hnd |].
  destruct (record_count sqlite_rowid _ Hnd) as (Hcreate & _ & Hdel).
  split; [exact (Hcreate pole) |].
  split; [exact (Hcreate (AddressCreate.mk "Nowhere" nan 0)) |].
  apply Hdel; [reflexivity | left].
Defined.

(** ** Requests and their answers *)

Section Requests.

Variable as_str : json → option string.
Variable as_float : json → option float.
Variable new_rowid : list Z → Z.
Variable geodesic_km : float * float → option float * option float → float.

Lemma required_missing {A} (conv : json → option A) (body : gmap string json)
    (key : string) :
  body !! key = None ∨ body !! key = Some JNull → required conv body key = None.
Proof. unfold required. by intros [-> | ->]. Qed.


End Requests.

(** X7.  The only [HTTPException] a handler raises is the 404 "Address
    not found", on a PUT or a DELETE of an id that no record has; that
    answer, the 500 of any other exception and the 422 of a request that
    does not validate all leave the table as it was. *)
Theorem errors_leave_table (as_str : json → option string)
    (as_float : json → option float) (new_rowid : list Z → Z)
    (geodesic_km : float * float → option float * option float → float)
    (r : request) (db : Table) :
  (∀ e, (serve as_str as_float new_rowid geodesic_km r db).1 = resp_error e →
     e = mkHTTPException 404 "Address not found" ∧
     (serve as_str as_float new_rowid geodesic_km r db).2 = db ∧
     ∃ address_id,
       (address_id ∉ Address.id <$> db) ∧
       (r = DELETE_addresses address_id ∨
        ∃ body, r = PUT_addresses address_id body)) ∧
  ((serve as_str as_float new_rowid geodesic_km r db).1 = resp_unprocessable →
     (serve as_str as_float new_rowid geodesic_km r db).2 = db) ∧
  ((serve as_str as_float new_rowid geodesic_km r db).1
     = resp_internal_server_error →
     (serve as_str as_float new_rowid geodesic_km r db).2 = db).
Proof.
  unfold serve. split; [| split].
  - intros e. destruct r as [body|address_id body|address_id| |]; simpl.
    + destruct (AddressCreate_validate as_str as_float body) as [address|];
        simpl; [| done].
      by destruct (create_address_table new_rowid address db)
        as [->|(la & lo & ->)].
    + destruct (AddressUpdate_validate as_str as_float body); simpl; [| done].
      unfold update_address, query_first.
      destruct (int64 address_id); simpl; [| done].
      destruct (select_first address_id db) eqn:Hq; simpl.
      * by destruct (mapM bind _).
      * intros [= <-]. apply select_first_None in Hq. eauto 10.
    + unfold delete_address, query_first.
      destruct (int64 address_id); simpl; [| done].
      destruct (select_first address_id db) eqn:Hq; simpl; [done |].
      intros [= <-]. apply select_first_None in Hq. eauto 10.
    + done.
    + unfold get_addresses_within_distance.
      destruct (within_distance _ _ _ _ _) as [e'|l] eqn:Hw; [| done].
      by apply within_distance_inl in Hw as ->.
  - destruct (dispatch as_str as_float r) as [o|]; [| done].
    destruct o as [address|address_id address|address_id| |]; simpl; try done.
    + by destruct (create_address_table new_rowid address db)
        as [->|(la & lo & ->)].
    + by destruct (update_address _ _ _) as [[[]|?] ?].
    + by destruct (delete_address _ _) as [[[]|?] ?].
  - destruct (dispatch as_str as_float r) as [o|]; [| done].
    destruct o as [address|address_id address|address_id| |]; simpl; try done.
    + by destruct (create_address_table new_rowid address db)
        as [->|(la & lo & ->)].
    + destruct (update_address_table address_id address db)
        as [Hdb|(old & stored & Hold & Hb & Hdb)].
      * by destruct (update_address _ _ _) as [[[]|?] ?].
      * unfold update_address, query_first in *.
        destruct (int64 address_id); [| done].
        by rewrite Hold, mapM_bind_model_dump, Hb.
    + unfold delete_address, query_first.
      destruct (int64 address_id); [| done].
      by destruct (select_first address_id db).
Qed.

(** X8.  A POST whose body lacks one of [name], [latitude] and
    [longitude], or gives [null] for it, is answered with the 422 and
    creates nothing. *)
Theorem post_requires_fields (as_str : json → option string)
    (as_float : json → option float) (new_rowid : list Z → Z)
    (geodesic_km : float * float → option float * option float → float)
    (body : gmap string json) (db : Table) (key : string) :
  key ∈ ["name"; "latitude"; "longitude"]%string →
  body !! key = None ∨ body !! key = Some JNull →
  serve as_str as_float new_rowid geodesic_km (POST_addresses body) db
  = (resp_unprocessable, db).
Proof.
  intros Hkey Hbody.
  assert (Hv : AddressCreate_validate as_str as_float body = None).
  { unfold AddressCreate_validate.
    repeat (apply elem_of_cons in Hkey as [->|Hkey]).
    - by rewrite (required_missing as_str body _ Hbody).
    - rewrite (required_missing as_float body _ Hbody).
      by destruct (required as_str body "name").
    - rewrite (required_missing as_float body "longitude" Hbody).
      destruct (required as_str body "name"); [| done]; simpl.
      by destruct (required as_float body "latitude").
    - by apply elem_of_nil in Hkey. }
  unfold serve; simpl. by rewrite Hv.
Qed.

Lemma post_requires_fields_witness :
  let body : gmap string json :=
    {[ "name"%string := JString "Home"; "latitude"%string := JNumber 40 ]} in
  "longitude"%string ∈ ["name"; "latitude"; "longitude"]%string ∧
  (body !! "longitude"%string = None ∨
   body !! "longitude"%string = Some JNull) ∧
  serve json_str json_float sqlite_rowid grid_km (POST_addresses body) []
  = (resp_unprocessable, []).
Proof.
  assert (Hkey : "longitude"%string ∈ ["name"; "latitude"; "longitude"]%string)
    by (do 2 right; left).
  assert (Hbody :
    ({[ "name"%string := JString "Home"; "latitude"%string := JNumber 40 ]}
       : gmap string json) !! "longitude"%string = None ∨
    ({[ "name"%string := JString "Home"; "latitude"%string := JNumber 40 ]}
       : gmap string json) !! "longitude"%string = Some JNull)
    by (left; reflexivity).
  split; [exact Hkey |]. split; [exact Hbody |].
  exact (post_requires_fields json_str json_float sqlite_rowid grid_km
           _ [] _ Hkey Hbody).
Defined.



(** X10.  A key of the body that is not a field of the model counts for
    nothing: with or without it, a PUT and a POST are answered alike and
    leave the same table.  So no body, not even one with an ["id"],
    reaches a column other than the three. *)
Theorem extra_keys_ignored (as_str : json → option string)
    (as_float : json → option float) (new_rowid : list Z → Z)
    (geodesic_km : float * float → option float * option float → float)
    (key : string) (v : json) (body : gmap string json) (db : Table) :
  key ∉ ["name"; "latitude"; "longitude"]%string →
  (∀ address_id,
     serve as_str as_float new_rowid geodesic_km
       (PUT_addresses address_id (<[key := v]> body)) db
     = serve as_str as_float new_rowid geodesic_km
         (PUT_addresses address_id body) db) ∧
  serve as_str as_float new_rowid geodesic_km
    (POST_addresses (<[key := v]> body)) db
  = serve as_str as_float new_rowid geodesic_km (POST_addresses body) db.
Proof.
  intros Hkey.
  assert (Hlookup : ∀ k, k ∈ ["name"; "latitude"; "longitude"]%string →
            <[key := v]> body !! k = body !! k).
  { intros k Hk. apply lookup_insert_ne. intros ->. by apply Hkey. }
  assert (Hn := Hlookup "name"%string ltac:(left)).
  assert (Hla := Hlookup "latitude"%string ltac:(right; left)).
  assert (Hlo := Hlookup "longitude"%string ltac:(do 2 right; left)).
  split; [intros address_id |]; unfold serve; simpl.
  - unfold AddressUpdate_validate, defaulted. by rewrite Hn, Hla, Hlo.
  - unfold AddressCreate_validate, required. by rewrite Hn, Hla, Hlo.
Qed.

Lemma extra_keys_ignored_witness :
  ("id"%string ∉ ["name"; "latitude"; "longitude"]%string) ∧
  let db := (create_address sqlite_rowid home []).2 in
  let body : gmap string json := {[ "latitude"%string := JNumber 41 ]} in
  serve json_str json_float sqlite_rowid grid_km
    (PUT_addresses 1 (<[ "id"%string := JNumber 7 ]> body)) db
  = serve json_str json_float sqlite_rowid grid_km (PUT_addresses 1 body) db.
Proof.
  assert (Hkey : "id"%string ∉ ["name"; "latitude"; "longitude"]%string).
  { intros H. repeat (apply elem_of_cons in H as [H|H]; [discriminate H |]).
    by apply elem_of_nil in H. }
  split; [exact Hkey |].
  exact (proj1 (extra_keys_ignored json_str json_float sqlite_rowid grid_km
                  "id" (JNumber 7) {[ "latitude"%string := JNumber 41 ]}
                  (create_address sqlite_rowid home []).2 Hkey) 1).
Defined.

(** ** Responses through the response model *)

Lemma AddressInDB_validate_is_Some (a : Address.t) :
  not_null a → is_Some (AddressInDB_validate a).
Proof.
  intros ([n Hn] & [la Hla] & [lo Hlo]). unfold AddressInDB_validate.
  rewrite Hn, Hla, Hlo. by eexists.
Qed.

Lemma response_model_list (l : list Address.t) :
  Forall not_null l → is_Some (response_model (resp_list l)).
Proof.
  intros Hl. simpl. apply fmap_is_Some, mapM_is_Some_2.
  eapply Forall_impl; [exact Hl |]. apply AddressInDB_validate_is_Some.
Qed.

Lemma not_null_patched (old : Address.t) (stored : AddressUpdate.t) :
  not_null old → not_null (patched old stored).
Proof.
  intros (? & ? & ?). destruct stored as [[?|] [?|] [?|]];
    repeat split; simpl; eauto.
Qed.

(** X12.  No answer of the service fails its response model: whatever
    requests were served since the table was empty, the value a handler
    returns for the next one validates against [AddressInDB], every
    returned address having a name, a latitude and a longitude. *)
Theorem responses_validate (as_str : json → option string)
    (as_float : json → option float) (new_rowid : list Z → Z)
    (geodesic_km : float * float → option float * option float → float)
    (rs : list request) (r : request) :
  is_Some
    (response_model
       (serve as_str as_float new_rowid geodesic_km r
          (serve_all as_str as_float new_rowid geodesic_km rs [])).1).
Proof.
  pose proof (serve_all_preserves as_str as_float new_rowid geodesic_km rs []
                (Forall_nil_2 _)) as Hdb.
  set (db := serve_all _ _ _ _ rs []) in *. clearbody db.
  rewrite Forall_forall in Hdb.
  unfold serve. destruct (dispatch as_str as_float r) as [o|]; [| by eexists].
  destruct o as [address|address_id address|address_id| |]; simpl.
  - destruct (create_address_table new_rowid address db)
      as [->|(la & lo & ->)]; by eexists.
  - destruct (query_first address_id db) as [e|[old|]] eqn:Hq.
    + unfold update_address. rewrite Hq. by destruct e; eexists.
    + destruct (AddressUpdate_bind address) as [stored|] eqn:Hb.
      * rewrite (update_address_found _ _ _ _ _ Hq Hb); simpl.
        apply fmap_is_Some, AddressInDB_validate_is_Some, not_null_patched.
        apply query_first_inr in Hq as [_ Hq].
        apply select_first_Some in Hq as [Hin _]. by apply Hdb.
      * rewrite (update_address_refused _ _ _ _ Hq Hb). by eexists.
    + unfold update_address. rewrite Hq. by eexists.
  - unfold delete_address.
    destruct (query_first address_id db) as [e|[old|]]; simpl;
      try destruct e; by eexists.
  - apply response_model_list. by apply Forall_forall.
  - unfold get_addresses_within_distance.
    destruct (within_distance _ _ _ _ db) as [e|l] eqn:Hw; simpl.
    + by destruct e; eexists.
    + apply within_distance_inr in Hw as (_ & _ & ->).
      apply response_model_list, Forall_forall. intros a Ha.
      apply list_elem_of_filter in Ha as [_ Ha]. by apply Hdb.
Qed.

(** ** The distance bound *)

(** X13.  A larger bound gives more: whenever [d1 <= d2], a query that
    returns for [d1] returns for [d2], the records within [d1] of the
    point being a subsequence of those within [d2] of it, so widening the
    search loses no record and keeps the order; and a query that raises
    for [d1] raises alike for [d2]. *)
Theorem within_distance_monotone
    (geodesic_km : float * float → option float * option float → float)
    (latitude longitude d1 d2 : float) (db : Table) :
  PrimFloat.leb d1 d2 = true →
  (∀ l1,
     get_addresses_within_distance geodesic_km latitude longitude d1 db
       = inr l1 →
     ∃ l2,
       get_addresses_within_distance geodesic_km latitude longitude d2 db
         = inr l2 ∧
       l1 `sublist_of` l2) ∧
  (∀ e,
     get_addresses_within_distance geodesic_km latitude longitude d1 db
       = inl e →
     get_addresses_within_distance geodesic_km latitude longitude d2 db
       = inl e).
Proof.
  intros Hle. unfold get_addresses_within_distance. split.
  - intros l1 H1. apply within_distance_inr in H1 as (Href & Hdb & ->).
    eexists. split; [by apply within_distance_inr |].
    apply sublist_filter_impl. intros a Ha. by eapply float_leb_trans.
  - intros e H1.
    destruct (within_distance _ _ _ d2 db) as [e2|l2] eqn:H2.
    + apply within_distance_inl in H1, H2. congruence.
    + apply within_distance_inr in H2 as (Href & Hdb & _).
      pose proof (proj2 (within_distance_inr geodesic_km latitude longitude d1
                           db _) (conj Href (conj Hdb eq_refl))).
      congruence.
Qed.

Lemma within_distance_monotone_witness :
  let db := run_all sqlite_rowid grid_km [Create office; Create home] [] in
  let l1 := [Address.mk 1 (Some "Office"%string) (Some 0%float) (Some 0%float)] in
  PrimFloat.leb 0 20000 = true ∧
  get_addresses_within_distance grid_km 0 0 0 db = inr l1 ∧
  ∃ l2,
    get_addresses_within_distance grid_km 0 0 20000 db = inr l2 ∧
    l1 `sublist_of` l2.
Proof.
  assert (H : PrimFloat.leb 0 20000 = true) by reflexivity.
  assert (H1 : get_addresses_within_distance grid_km 0 0 0
                 (run_all sqlite_rowid grid_km [Create office; Create home] [])
               = inr [Address.mk 1 (Some "Office"%string) (Some 0%float)
                        (Some 0%float)]) by (vm_compute; reflexivity).
  split; [exact H |]. split; [exact H1 |].
  exact (proj1 (within_distance_monotone grid_km 0 0 0 20000
                  (run_all sqlite_rowid grid_km [Create office; Create home] [])
                  H) _ H1).
Defined.

(** X14.  A bound that is not a number matches nothing: with a NaN
    distance the query never returns a record.  It returns the empty
    list, or raises where it would for any other bound. *)
Theorem within_distance_nan
    (geodesic_km : float * float → option float * option float → float)
    (latitude longitude distance : float) (db : Table) :
  is_nan distance = true →
  get_addresses_within_distance geodesic_km latitude longitude distance db
    = inr [] ∨
  get_addresses_within_distance geodesic_km latitude longitude distance db
    = inl ValueError.
Proof.
  intros Hd. unfold get_addresses_within_distance.
  destruct (within_distance _ _ _ _ db) as [e|l] eqn:Hw.
  - right. by apply within_distance_inl in Hw as ->.
  - left. apply within_distance_inr in Hw as (_ & _ & ->). f_equal.
    clear -Hd. induction db as [|a db IH]; [done |].
    rewrite filter_cons_False; [done |]. by rewrite float_leb_nan_r.
Qed.

Lemma within_distance_nan_witness :
  let db := run_all sqlite_rowid grid_km [Create office; Create home] [] in
  is_nan nan = true ∧
  get_addresses_within_distance grid_km 0 0 nan db = inr [] ∧
  (get_addresses_within_distance grid_km 0 0 nan db = inr [] ∨
   get_addresses_within_distance grid_km 0 0 nan db = inl ValueError).
Proof.
  assert (H : is_nan nan = true) by reflexivity.
  split; [exact H |]. split; [vm_compute; reflexivity |].
  exact (within_distance_nan grid_km 0 0 nan
           (run_all sqlite_rowid grid_km [Create office; Create home] []) H).
Defined.

(** ** The order of the listing *)

Lemma StronglySorted_sublist {A} (R : relation A) (l k : list A) :
  l `sublist_of` k → StronglySorted R k → StronglySorted R l.
Proof.
  induction 1 as [|x l k Hlk IH|x l k Hlk IH]; intros Hk.
  - constructor.
  - apply StronglySorted_inv in Hk as [Hk Hx]. constructor; [by apply IH |].
    rewrite Forall_forall in Hx. apply Forall_forall. intros y Hy.
    apply Hx. by apply (sublist_subseteq _ _ Hlk).
  - apply StronglySorted_inv in Hk as [Hk _]. by apply IH.
Qed.

Lemma sqlite_rowid_above (ids : list Z) :
  Forall (λ i, 1 ≤ i) ids →
  1 ≤ sqlite_rowid ids ∧ ∀ i, i ∈ ids → i < sqlite_rowid ids.
Proof.
  intros Hids. destruct ids as [|j ids]; simpl.
  - split; [lia |]. intros i Hi. by apply elem_of_nil in Hi.
  - pose proof (foldr_max_ge j ids) as Hmax. split.
    + apply Forall_cons in Hids as [Hj _].
      pose proof (Hmax j (list_elem_of_here _ _)). lia.
    + intros i Hi. pose proof (Hmax i Hi). lia.
Qed.

(** X15.  With SQLite's key allocation, the ids of a table reached from
    the empty one are at least 1 and strictly increasing along the
    table: the listing is in the order of creation, which is the order
    of the ids. *)
Theorem listing_in_id_order
    (geodesic_km : float * float → option float * option float → float)
    (ops : list op) :
  let db := run_all sqlite_rowid geodesic_km ops [] in
  Forall (λ i, 1 ≤ i) (Address.id <$> get_addresses db) ∧
  StronglySorted Z.lt (Address.id <$> get_addresses db).
Proof.
  unfold get_addresses.
  assert (Hinv : ∀ db,
    Forall (λ i, 1 ≤ i) (Address.id <$> db) ∧
      StronglySorted Z.lt (Address.id <$> db) →
    Forall (λ i, 1 ≤ i) (Address.id <$> run_all sqlite_rowid geodesic_km ops db) ∧
      StronglySorted Z.lt (Address.id <$> run_all sqlite_rowid geodesic_km ops db)).
  { induction ops as [|o ops IH]; intros db [Hpos Hsorted]; [done |].
    simpl. apply IH.
    destruct o as [address|address_id address|address_id| |].
    - rewrite step_Create.
      destruct (create_address_table sqlite_rowid address db)
        as [->|(la & lo & ->)]; [done |].
      simpl. rewrite fmap_app. simpl.
      destruct (sqlite_rowid_above _ Hpos) as [Hnew Habove]. split.
      + apply Forall_app. split; [done | by apply Forall_singleton].
      + apply StronglySorted_app. split; [| split; [done |]].
        * intros i j Hi Hj. apply list_elem_of_singleton in Hj as ->.
          by apply Habove.
        * repeat constructor.
    - by rewrite step_Update, update_address_ids.
    - rewrite step_Delete.
      assert (Hsub : Address.id <$> (delete_address address_id db).2
                       `sublist_of` Address.id <$> db)
        by apply fmap_sublist, delete_address_sublist.
      split.
      + rewrite Forall_forall in Hpos. apply Forall_forall. intros i Hi.
        apply Hpos. by apply (sublist_subseteq _ _ Hsub).
      + by apply (StronglySorted_sublist _ _ _ Hsub).
    - done.
    - done. }
  apply Hinv. split; constructor.
Qed.
